(** * Subtitle batch generation (cmd.py): a shallow embedding and its properties

    The development follows [src/cmd.py]:
    - Python [str] values are sequences of Unicode code points;
    - the text-cleaning and noise-filter steps of [write_srt] are modelled
      with the semantics of [str.strip], [str.replace], [re.sub] and
      [re.match] for the two patterns the source uses;
    - the per-file pipeline of [process_file] runs in a state-and-exception
      monad over a machine made of a file system, a log and a trace of the
      calls to the external collaborators. *)

From Stdlib Require Import ZArith NArith List String Ascii Bool Lia.
From Stdlib Require Import Floats.
From stdpp Require Import base option list gmap strings.

Set Warnings "-inexact-float".

(** ** Python strings *)

Module PyStr.

(** A Python [str] is a sequence of code points. *)
Definition pystr := list N.

(** Literals of the source file are UTF-8; [u] decodes a literal written in
    this file into its code points, as the Python parser does. *)
Fixpoint utf8_decode (acc : N) (need : nat) (bs : list N) : pystr :=
  match bs with
  | [] => []
  | b :: bs' =>
      match need with
      | O =>
          if (b <? 0x80)%N then b :: utf8_decode 0 0 bs'
          else if (b <? 0xE0)%N then utf8_decode (N.land b 0x1F) 1 bs'
          else if (b <? 0xF0)%N then utf8_decode (N.land b 0x0F) 2 bs'
          else utf8_decode (N.land b 0x07) 3 bs'
      | S O => (acc * 64 + N.land b 0x3F)%N :: utf8_decode 0 0 bs'
      | S k => utf8_decode (acc * 64 + N.land b 0x3F)%N k bs'
      end
  end.

Definition u (s : string) : pystr :=
  utf8_decode 0 0 (map N_of_ascii (list_ascii_of_string s)).

Definition in_ranges (rs : list (N * N)) (c : N) : bool :=
  existsb (fun r => (fst r <=? c)%N && (c <=? snd r)%N) rs.

(** [str.isspace] on one code point, which is also the regular expression
    class [\s] on [str] patterns (CPython's [Py_UNICODE_ISSPACE]). *)
Definition space_ranges : list (N * N) :=
  [ (0x09, 0x0D); (0x1C, 0x20); (0x85, 0x85); (0xA0, 0xA0); (0x1680, 0x1680);
    (0x2000, 0x200A); (0x2028, 0x2029); (0x202F, 0x202F); (0x205F, 0x205F);
    (0x3000, 0x3000) ]%N.

Definition isspace (c : N) : bool := in_ranges space_ranges c.

(** [str.isdecimal] on one code point, which is the class [\d] on [str]
    patterns: the general category Nd (Unicode 14.0 table of CPython 3.11). *)
Definition decimal_ranges : list (N * N) :=
  [ (0x30, 0x39); (0x660, 0x669); (0x6F0, 0x6F9); (0x7C0, 0x7C9);
    (0x966, 0x96F); (0x9E6, 0x9EF); (0xA66, 0xA6F); (0xAE6, 0xAEF);
    (0xB66, 0xB6F); (0xBE6, 0xBEF); (0xC66, 0xC6F); (0xCE6, 0xCEF);
    (0xD66, 0xD6F); (0xDE6, 0xDEF); (0xE50, 0xE59); (0xED0, 0xED9);
    (0xF20, 0xF29); (0x1040, 0x1049); (0x1090, 0x1099); (0x17E0, 0x17E9);
    (0x1810, 0x1819); (0x1946, 0x194F); (0x19D0, 0x19D9); (0x1A80, 0x1A89);
    (0x1A90, 0x1A99); (0x1B50, 0x1B59); (0x1BB0, 0x1BB9); (0x1C40, 0x1C49);
    (0x1C50, 0x1C59); (0xA620, 0xA629); (0xA8D0, 0xA8D9); (0xA900, 0xA909);
    (0xA9D0, 0xA9D9); (0xA9F0, 0xA9F9); (0xAA50, 0xAA59); (0xABF0, 0xABF9);
    (0xFF10, 0xFF19); (0x104A0, 0x104A9); (0x10D30, 0x10D39);
    (0x11066, 0x1106F); (0x110F0, 0x110F9); (0x11136, 0x1113F);
    (0x111D0, 0x111D9); (0x112F0, 0x112F9); (0x11450, 0x11459);
    (0x114D0, 0x114D9); (0x11650, 0x11659); (0x116C0, 0x116C9);
    (0x11730, 0x11739); (0x118E0, 0x118E9); (0x11950, 0x11959);
    (0x11C50, 0x11C59); (0x11D50, 0x11D59); (0x11DA0, 0x11DA9);
    (0x16A60, 0x16A69); (0x16AC0, 0x16AC9); (0x16B50, 0x16B59);
    (0x1D7CE, 0x1D7FF); (0x1E140, 0x1E149); (0x1E2F0, 0x1E2F9);
    (0x1E950, 0x1E959); (0x1FBF0, 0x1FBF9) ]%N.

Definition isdecimal (c : N) : bool := in_ranges decimal_ranges c.

(** [s.startswith(p)] *)
Fixpoint startswith (p s : pystr) : bool :=
  match p, s with
  | [], _ => true
  | _ :: _, [] => false
  | a :: p', b :: s' => (a =? b)%N && startswith p' s'
  end.

(** [p in s] for a one-character [p] *)
Definition contains_char (c : N) (s : pystr) : bool := existsb (N.eqb c) s.

(** [s.lstrip()], [s.rstrip()] and [s.strip()] without argument: whitespace
    is removed at both ends. *)
Fixpoint lstrip (s : pystr) : pystr :=
  match s with
  | [] => []
  | c :: s' => if isspace c then lstrip s' else s
  end.

Definition rstrip (s : pystr) : pystr := rev (lstrip (rev s)).

Definition strip (s : pystr) : pystr := rstrip (lstrip s).

(** [s.replace(old, new)] for a non-empty [old]: every occurrence of [old],
    found left to right without overlap, becomes [new].  [skip] counts the
    characters of the occurrence just replaced that are still to be passed. *)
Fixpoint replace_from (old new : pystr) (skip : nat) (s : pystr) : pystr :=
  match s with
  | [] => []
  | c :: s' =>
      match skip with
      | S k => replace_from old new k s'
      | O =>
          if startswith old s
          then new ++ replace_from old new (length old - 1) s'
          else c :: replace_from old new 0 s'
      end
  end.

Definition replace (old new s : pystr) : pystr := replace_from old new 0 s.

(** ["sep".join(parts)] *)
Fixpoint join (sep : pystr) (parts : list pystr) : pystr :=
  match parts with
  | [] => []
  | [p] => p
  | p :: ps => p ++ sep ++ join sep ps
  end.

(** [str(n)] for a non-negative integer. *)
Definition digit_char (d : N) : N := (0x30 + d)%N.

Fixpoint uint_chars (d : Decimal.uint) : pystr :=
  match d with
  | Decimal.Nil => []
  | Decimal.D0 d' => digit_char 0 :: uint_chars d'
  | Decimal.D1 d' => digit_char 1 :: uint_chars d'
  | Decimal.D2 d' => digit_char 2 :: uint_chars d'
  | Decimal.D3 d' => digit_char 3 :: uint_chars d'
  | Decimal.D4 d' => digit_char 4 :: uint_chars d'
  | Decimal.D5 d' => digit_char 5 :: uint_chars d'
  | Decimal.D6 d' => digit_char 6 :: uint_chars d'
  | Decimal.D7 d' => digit_char 7 :: uint_chars d'
  | Decimal.D8 d' => digit_char 8 :: uint_chars d'
  | Decimal.D9 d' => digit_char 9 :: uint_chars d'
  end.

Definition str_of_N (n : N) : pystr := uint_chars (N.to_uint n).

Definition str_of_nat (n : nat) : pystr := str_of_N (N.of_nat n).

End PyStr.

Import PyStr.

(** ** The two regular expressions of [write_srt] *)

Module Regex.

(** An item of a bracketed character class. *)
Inductive class_item : Type :=
  | Lit (c : N)
  | ClsSpace
  | ClsDigit.

Definition item_matches (c : N) (i : class_item) : bool :=
  match i with
  | Lit d => (d =? c)%N
  | ClsSpace => isspace c
  | ClsDigit => isdecimal c
  end.

Definition in_class (cls : list class_item) (c : N) : bool :=
  existsb (item_matches c) cls.

(** [\d+;] tried at the head of [s], with a greedy [+] that gives characters
    back one at a time: the number of characters of the match. *)
Fixpoint match_digits_semi (s : pystr) : option nat :=
  match s with
  | [] => None
  | c :: s' =>
      if isdecimal c then
        match match_digits_semi s' with
        | Some n => Some (S n)
        | None =>
            match s' with
            | c' :: _ => if (c' =? 0x3B)%N then Some 2 else None
            | [] => None
            end
        end
      else None
  end.

(** [&#\d+;] tried at the head of [s]. *)
Definition match_entity (s : pystr) : option nat :=
  match s with
  | a :: b :: s' =>
      if (a =? 0x26)%N && (b =? 0x23)%N
      then option_map (fun n => S (S n)) (match_digits_semi s')
      else None
  | _ => None
  end.

(** [re.sub(r'&#\d+;', '', s)]: the matches are searched left to right, the
    search resumes after each match, and each match becomes the empty string. *)
Fixpoint sub_entity_from (skip : nat) (s : pystr) : pystr :=
  match s with
  | [] => []
  | c :: s' =>
      match skip with
      | S k => sub_entity_from k s'
      | O =>
          match match_entity s with
          | Some n => sub_entity_from (n - 1) s'
          | None => c :: sub_entity_from 0 s'
          end
      end
  end.

Definition sub_entity (s : pystr) : pystr := sub_entity_from 0 s.

(** [$] without the MULTILINE flag: at the end of the string, or just before
    a newline that is the last character. *)
Definition at_end (s : pystr) : bool :=
  match s with
  | [] => true
  | [c] => (c =? 0x0A)%N
  | _ => false
  end.

(** [[cls]*$] tried at the head of [s]: the star takes a character of the
    class when the rest of the pattern then succeeds, and otherwise stops. *)
Fixpoint match_star_end (cls : list class_item) (s : pystr) : bool :=
  match s with
  | [] => at_end s
  | c :: s' =>
      if in_class cls c && match_star_end cls s' then true else at_end s
  end.

(** The class of the noise pattern: sixteen CJK marks, colon, semicolon,
    double quote (U+0022), apostrophe, [\s], space, [\d], then the ASCII
    marks from backtick to slash, backslash and hyphen, in source order. *)
Definition noise_class : list class_item :=
  map Lit (u "，。、？‘’“”；：（｛｝【】）:;")
  ++ [Lit 0x22%N; Lit 0x27%N; ClsSpace; Lit 0x20%N; ClsDigit]
  ++ map Lit (u "`!@#$%^&*()_+=.,?/")
  ++ [Lit 0x5C%N; Lit 0x2D%N].

(** [re.match(r'^[...]*$', s)] as a truth value; [re.match] starts at
    position 0, where [^] holds. *)
Definition match_noise (s : pystr) : bool := match_star_end noise_class s.

End Regex.

Import Regex.

(** ** Cleaning and filtering of a segment text (write_srt, lines 96-99) *)

Definition apos_entity : pystr := u "&#39;".
Definition apos : pystr := u "'".

(** [text = segment.text.strip().replace('&#39;', "'")] followed by
    [text = re.sub(r'&#\d+;', '', text)]. *)
Definition clean_text (raw : pystr) : pystr :=
  let text := replace apos_entity apos (strip raw) in
  sub_entity text.

(** A character of the fixed noise set: a member of the class of the
    noise pattern. *)
Definition noise_char (c : N) : bool := in_class noise_class c.

(** The literal characters of the noise class. *)
Definition noise_marks : pystr :=
  u "，。、？‘’“”；：（｛｝【】）:;" ++ [0x22; 0x27; 0x20]%N
  ++ u "`!@#$%^&*()_+=.,?/" ++ [0x5C; 0x2D]%N.

(** Truth value of a [str]: non-empty. *)
Definition truthy (s : pystr) : bool :=
  match s with [] => false | _ :: _ => true end.

(** The test [text and not re.match(...)] that guards the append. *)
Definition accepted (text : pystr) : bool :=
  truthy text && negb (match_noise text).

(** Cleaning as the specification words it: entity normalisation first,
    trimming last. *)
Definition spec_clean_text (raw : pystr) : pystr :=
  strip (sub_entity (replace apos_entity apos raw)).

(** ** Python values, exceptions and floats *)

Inductive pyval : Type :=
  | VNone
  | VBool (b : bool)
  | VInt (z : Z)
  | VFloat (x : float)
  | VStr (s : pystr).

(** The classes of the exceptions that the code or its collaborators raise;
    all of them derive from [Exception]. *)
Inductive exn_class : Type :=
  | RuntimeError
  | ZeroDivisionError
  | ValueError
  | OverflowError
  | OSError
  | CollaboratorError.

Record exn : Type := mk_exn { exn_cls : exn_class; exn_msg : pystr }.

(** How a Python computation ends: with a value, with an exception derived
    from [Exception], or with the [SystemExit] of [sys.exit(code)], which an
    [except Exception] clause does not catch. *)
Inductive outcome (A : Type) : Type :=
  | Ok (a : A)
  | Raise (e : exn)
  | Exit (code : Z).

Arguments Ok {A} a.
Arguments Raise {A} e.
Arguments Exit {A} code.

(** [x / y] on floats. *)
Definition float_div (x y : float) : outcome float :=
  if (y =? 0)%float
  then Raise (mk_exn ZeroDivisionError (u "float division by zero"))
  else Ok (x / y)%float.

(** [int(x)] on a float: truncation towards zero. *)
Definition int_of_float (x : float) : outcome Z :=
  match Prim2SF x with
  | S754_zero _ => Ok 0%Z
  | S754_infinity _ =>
      Raise (mk_exn OverflowError (u "cannot convert float infinity to integer"))
  | S754_nan =>
      Raise (mk_exn ValueError (u "cannot convert float NaN to integer"))
  | S754_finite s m e =>
      let mag := if (0 <=? e)%Z then (Z.pos m * 2 ^ e)%Z
                 else (Z.pos m / 2 ^ (- e))%Z in
      Ok (if s then (- mag)%Z else mag)
  end.

(** ** Time stamps *)

(** [n] in decimal, left-padded with zeros to [width] characters. *)
Definition zero_pad (width : nat) (n : N) : pystr :=
  let d := str_of_N n in
  List.repeat (digit_char 0) (width - length d) ++ d.

(** Modelled from the spec: [tool.ms_to_time_string] (module [stslib.tool]
    of this repository) is not among the sources.  The specification gives
    its result as hours:minutes:seconds,milliseconds with two-digit
    fields and a three-digit, zero-padded millisecond field; segment times
    are non-negative there. *)
Definition ms_to_time_string (ms : Z) : pystr :=
  let t := Z.to_N ms in
  zero_pad 2 (t / 3600000)%N ++ u ":"
  ++ zero_pad 2 ((t / 60000) mod 60)%N ++ u ":"
  ++ zero_pad 2 ((t / 1000) mod 60)%N ++ u ","
  ++ zero_pad 3 (t mod 1000)%N.

(** ** Paths *)

(** [s.rfind(c)] for a one-character [c]; [None] stands for -1. *)
Fixpoint rfind_from (c : N) (s : pystr) (i : nat) (found : option nat) : option nat :=
  match s with
  | [] => found
  | x :: s' => rfind_from c s' (S i) (if (x =? c)%N then Some i else found)
  end.

Definition rfind (c : N) (s : pystr) : option nat := rfind_from c s 0 None.

(** [os.path.splitext(p)] on POSIX: the extension starts at the last dot of
    the last path component, unless only dots precede it there. *)
Definition splitext (p : pystr) : pystr * pystr :=
  match rfind 0x2E%N p with
  | None => (p, [])
  | Some dotIndex =>
      let filenameIndex :=
        match rfind 0x2F%N p with None => 0 | Some sepIndex => S sepIndex end in
      if (filenameIndex <=? dotIndex)
         && existsb (fun c => negb (c =? 0x2E)%N)
                    (take (dotIndex - filenameIndex) (drop filenameIndex p))
      then (take dotIndex p, drop dotIndex p)
      else (p, [])
  end.

(** ** Data of the pipeline *)

(** The settings returned by [cfg.parse_ini()]; [sets.get(key)] is [None]
    for a missing key. *)
Abbreviation settings := (gmap string pyval).

Definition sets_get (sets : settings) (key : string) : pyval :=
  default VNone (sets !! key).

(** Arguments of the [WhisperModel] constructor. *)
Record model_args : Type := mk_model_args {
  model_size_or_path : pystr;
  device : pyval;
  compute_type : pyval;
  download_root : pystr;
  local_files_only : bool
}.

(** Keyword arguments of [model.transcribe]. *)
Record transcribe_args : Type := mk_transcribe_args {
  kw_beam_size : pyval;
  kw_best_of : pyval;
  kw_condition_on_previous_text : pyval;
  kw_vad_filter : pyval;
  kw_language : pyval;
  kw_initial_prompt : pyval
}.

Record Segment : Type := mk_segment {
  seg_start : float;
  seg_end : float;
  seg_text : pystr
}.

(** The lazy, forward-only sequence of segments: each request for the next
    element yields a segment, ends the sequence, or raises. *)
Inductive segment_gen : Type :=
  | GStop
  | GYield (segment : Segment) (rest : segment_gen)
  | GRaise (e : exn).

Record TranscriptionInfo : Type := mk_info { duration : float }.

(** What a collaborator call gives back: a value or an exception derived
    from [Exception]. *)
Inductive reply (A : Type) : Type :=
  | Returns (a : A)
  | Raises (e : exn).

Arguments Returns {A} a.
Arguments Raises {A} e.

(** The external collaborators, as the code consumes them.  [temp_stem]
    chooses the name of a new temporary file from the files that exist;
    [open_w] tells whether opening a path for writing fails. *)
Record world : Type := mk_world {
  parse_ini : reply settings;
  ROOT_DIR : pystr;
  WhisperModel : model_args -> reply unit;
  temp_stem : gmap (list N) (list N) -> pystr;
  runffmpeg : list pystr -> reply pystr;
  transcribe : model_args -> pystr -> transcribe_args
               -> reply (segment_gen * TranscriptionInfo);
  open_w : pystr -> option exn
}.

(** Records of the logger, one constructor per message of the source. *)
Inductive log_record : Type :=
  | InfoProcessing (input_file : pystr)
  | InfoProgress (percent : float) (original_filename : pystr)
  | InfoSaved (srt_file : pystr)
  | WarnNoValid (original_filename : pystr)
  | ErrorProcessing (input_file : pystr) (msg : pystr)
  | InfoDeleted (wav_file : pystr).

(** Calls to the collaborators, in the order they are made. *)
Inductive call : Type :=
  | CallParseIni
  | CallWhisperModel (a : model_args)
  | CallRunFfmpeg (params : list pystr)
  | CallTranscribe (wav : pystr) (kw : transcribe_args).

(** The machine: the files that exist with their text, the writes made by
    the program, the log, the standard output, the collaborator calls, and
    the local variable [wav_file] of the running [process_file] (the
    function is never re-entered, so one slot is enough). *)
Record machine : Type := mk_machine {
  files : gmap (list N) (list N);
  writes : list (pystr * pystr);
  log : list log_record;
  stdout : list pystr;
  calls : list call;
  wav_file : option pystr
}.

Definition set_files (f : gmap (list N) (list N)) (m : machine) : machine :=
  mk_machine f (writes m) (log m) (stdout m) (calls m) (wav_file m).
Definition add_write (p c : pystr) (m : machine) : machine :=
  mk_machine (files m) (writes m ++ [(p, c)]) (log m) (stdout m) (calls m) (wav_file m).
Definition add_log (r : log_record) (m : machine) : machine :=
  mk_machine (files m) (writes m) (log m ++ [r]) (stdout m) (calls m) (wav_file m).
Definition add_stdout (s : pystr) (m : machine) : machine :=
  mk_machine (files m) (writes m) (log m) (stdout m ++ [s]) (calls m) (wav_file m).
Definition add_call (c : call) (m : machine) : machine :=
  mk_machine (files m) (writes m) (log m) (stdout m) (calls m ++ [c]) (wav_file m).
Definition set_wav_file (v : option pystr) (m : machine) : machine :=
  mk_machine (files m) (writes m) (log m) (stdout m) (calls m) v.

Definition initial_machine : machine := mk_machine ∅ [] [] [] [] None.

(** ** The monad of the program: state and exceptions *)

Definition M (A : Type) : Type := machine -> outcome A * machine.

Definition ret {A} (a : A) : M A := fun m => (Ok a, m).

Definition bind {A B} (c : M A) (k : A -> M B) : M B :=
  fun m =>
    match c m with
    | (Ok a, m') => k a m'
    | (Raise e, m') => (Raise e, m')
    | (Exit z, m') => (Exit z, m')
    end.

Declare Scope prog_scope.
Delimit Scope prog_scope with prog.
Notation "x <- c ;; k" := (bind c (fun x => k))
  (at level 100, c at next level, right associativity) : prog_scope.
Notation "c ;; k" := (bind c (fun _ => k))
  (at level 100, right associativity) : prog_scope.
Open Scope prog_scope.

Definition raise {A} (e : exn) : M A := fun m => (Raise e, m).
Definition sys_exit {A} (code : Z) : M A := fun m => (Exit code, m).
Definition modify (f : machine -> machine) : M unit := fun m => (Ok tt, f m).
Definition get : M machine := fun m => (Ok m, m).

Definition of_outcome {A} (r : outcome A) : M A := fun m => (r, m).

Definition of_reply {A} (r : reply A) : M A :=
  match r with
  | Returns a => ret a
  | Raises e => raise e
  end.

(** [try: body except Exception as e: handler(e) finally: final].  The
    handler sees exceptions derived from [Exception] only; [final] runs on
    every way out, and what it raises replaces the pending result. *)
Definition try_except_finally {A} (body : M A) (handler : exn -> M A)
    (final : M unit) : M A :=
  fun m =>
    let '(r1, m1) := body m in
    let '(r2, m2) := match r1 with
                     | Raise e => handler e m1
                     | _ => (r1, m1)
                     end in
    let '(r3, m3) := final m2 in
    match r3 with
    | Ok _ => (r2, m3)
    | Raise e => (Raise e, m3)
    | Exit z => (Exit z, m3)
    end.

(** [for x in l: body(x)] *)
Fixpoint for_each {A} (l : list A) (body : A -> M unit) : M unit :=
  match l with
  | [] => ret tt
  | x :: l' => body x ;; for_each l' body
  end.

Definition logger_info (r : log_record) : M unit := modify (add_log r).
Definition logger_warning (r : log_record) : M unit := modify (add_log r).
Definition logger_error (r : log_record) : M unit := modify (add_log r).
Definition print (s : pystr) : M unit := modify (add_stdout s).

(** [os.path.exists(p)] and [os.remove(p)] *)
Definition path_exists (p : pystr) (m : machine) : bool :=
  bool_decide (is_Some (files m !! p)).

Definition os_remove (p : pystr) : M unit :=
  modify (fun m => set_files (delete p (files m)) m).

(** ** The program *)

Section Program.

Variable w : world.

Definition call_parse_ini : M settings :=
  modify (add_call CallParseIni) ;; of_reply (parse_ini w).

Definition call_WhisperModel (a : model_args) : M model_args :=
  modify (add_call (CallWhisperModel a)) ;;
  of_reply (WhisperModel w a) ;;
  ret a.

Definition call_runffmpeg (params : list pystr) : M pystr :=
  modify (add_call (CallRunFfmpeg params)) ;; of_reply (runffmpeg w params).

Definition call_transcribe (model : model_args) (wav : pystr)
    (kw : transcribe_args) : M (segment_gen * TranscriptionInfo) :=
  modify (add_call (CallTranscribe wav kw)) ;; of_reply (transcribe w model wav kw).

(** [with tempfile.NamedTemporaryFile(suffix=".wav", delete=False) as f:
    wav_file_path = f.name]: a new, empty file that outlives the block. *)
Definition named_temporary_file (suffix : pystr) : M pystr :=
  m <- get ;;
  let name := temp_stem w (files m) ++ suffix in
  modify (set_files (<[name := []]> (files m))) ;;
  ret name.

(** [with open(path, 'w', encoding='utf-8') as file: file.write(content)] *)
Definition write_text_file (path content : pystr) : M unit :=
  match open_w w path with
  | Some e => raise e
  | None =>
      modify (fun m => add_write path content
                         (set_files (<[path := content]> (files m)) m))
  end.

(** Lines 66-84.  The locals [basename] and [wav_file] of the source are
    computed and never used; they are left out. *)
Definition convert_to_wav (input_file : pystr) : M pystr :=
  wav_file_path <- named_temporary_file (u ".wav") ;;
  let params := [u "-i"; input_file; u "-ar"; u "16000"; u "-ac"; u "1";
                 u "-af"; u "aresample=async=1"; wav_file_path] in
  rs <- call_runffmpeg params ;;
  if bool_decide (rs ≠ u "ok")
  then raise (mk_exn RuntimeError (u "FFmpeg error: " ++ rs))
  else ret wav_file_path.

(** The subtitle block appended at line 100. *)
Definition srt_block (srt_content : list pystr) (startTime endTime text : pystr)
    : pystr :=
  str_of_nat (length srt_content + 1) ++ [0x0A%N]
  ++ startTime ++ u " --> " ++ endTime ++ [0x0A%N]
  ++ text ++ [0x0A%N].

(** The loop of lines 90-100, with [srt_content] as accumulator. *)
Fixpoint write_srt_loop (segments : segment_gen) (original_filename : pystr)
    (total_duration : float) (srt_content : list pystr) : M (list pystr) :=
  match segments with
  | GStop => ret srt_content
  | GRaise e => raise e
  | GYield segment rest =>
      progress <- of_outcome (float_div (seg_end segment) total_duration) ;;
      logger_info (InfoProgress (progress * 100)%float original_filename) ;;
      ms_start <- of_outcome (int_of_float (seg_start segment * 1000)%float) ;;
      let startTime := ms_to_time_string ms_start in
      ms_end <- of_outcome (int_of_float (seg_end segment * 1000)%float) ;;
      let endTime := ms_to_time_string ms_end in
      let text := clean_text (seg_text segment) in
      write_srt_loop rest original_filename total_duration
        (if accepted text
         then srt_content ++ [srt_block srt_content startTime endTime text]
         else srt_content)
  end.

(** Lines 87-109. *)
Definition write_srt (segments : segment_gen) (original_filename : pystr)
    (total_duration : float) : M unit :=
  srt_content <- write_srt_loop segments original_filename total_duration [] ;;
  match srt_content with
  | _ :: _ =>
      let srt_file := fst (splitext original_filename) ++ u ".srt" in
      write_text_file srt_file (join [0x0A%N] srt_content) ;;
      logger_info (InfoSaved srt_file)
  | [] => logger_warning (WarnNoValid original_filename)
  end.

Definition model_args_of (sets : settings) (model_name : pystr) : model_args :=
  {| model_size_or_path :=
       if startswith (u "distil") model_name
       then replace (u "-whisper") [] model_name
       else model_name;
     device := sets_get sets "devtype";
     compute_type := sets_get sets "cuda_com_type";
     download_root := ROOT_DIR w ++ u "/models";
     local_files_only := if contains_char 0x2F%N model_name then false else true |}.

Definition transcribe_args_of (sets : settings) (language : pystr)
    : transcribe_args :=
  {| kw_beam_size := sets_get sets "beam_size";
     kw_best_of := sets_get sets "best_of";
     kw_condition_on_previous_text := sets_get sets "condition_on_previous_text";
     kw_vad_filter := sets_get sets "vad";
     kw_language := if bool_decide (language ≠ u "auto")
                    then VStr language else VNone;
     kw_initial_prompt := if bool_decide (language = u "zh")
                          then sets_get sets "initial_prompt_zh" else VNone |}.

(** The [try] block of [process_file], lines 32-55. *)
Definition process_file_body (input_file model_name language : pystr) : M unit :=
  sets <- call_parse_ini ;;
  model <- call_WhisperModel (model_args_of sets model_name) ;;
  logger_info (InfoProcessing input_file) ;;
  wav <- convert_to_wav input_file ;;
  modify (set_wav_file (Some wav)) ;;
  r <- call_transcribe model wav (transcribe_args_of sets language) ;;
  write_srt (fst r) input_file (duration (snd r)).

(** The [except] clause, lines 57-58; [str(e)] is the message. *)
Definition process_file_except (input_file : pystr) (e : exn) : M unit :=
  logger_error (ErrorProcessing input_file (exn_msg e)).

(** The [finally] clause, lines 60-63. *)
Definition process_file_finally : M unit :=
  m <- get ;;
  match wav_file m with
  | Some p =>
      if truthy p && path_exists p m
      then os_remove p ;; logger_info (InfoDeleted p)
      else ret tt
  | None => ret tt
  end.

(** Lines 28-63. *)
Definition process_file (input_file model_name language : pystr) : M unit :=
  modify (set_wav_file None) ;;
  try_except_finally
    (process_file_body input_file model_name language)
    (process_file_except input_file)
    process_file_finally.

Definition usage : pystr :=
  u "Usage: python script.py <model_name> <language> <input_files...>".

(** Lines 112-122.  Past the guard the list has three elements or more, so
    the two indexings cannot fail. *)
Definition main (args : list pystr) : M unit :=
  (if length args <? 3
   then print usage ;; sys_exit 1
   else ret tt) ;;
  let model_name := nth 0 args [] in
  let language := nth 1 args [] in
  let input_files := drop 2 args in
  for_each input_files (fun input_file =>
    process_file input_file model_name language).

End Program.

(** ** Concrete inputs *)

(** A generator that yields the given segments and stops. *)
Definition gen_of (l : list Segment) : segment_gen := fold_right GYield GStop l.

(** The segments a generator yields before it stops or raises. *)
Fixpoint yielded (g : segment_gen) : list Segment :=
  match g with
  | GYield s rest => s :: yielded rest
  | _ => []
  end.

Definition demo_sets : settings :=
  <["initial_prompt_zh" := VStr (u "以下是普通话的句子。")]>
    (<["beam_size" := VInt 5]> (<["vad" := VBool true]> ∅)).

(** A world in which the transcoder answers [ff] and recognition yields
    [segs] for audio of [dur] seconds; temporary names are numbered by the
    count of existing files. *)
Definition demo_world (ff : reply pystr) (open_error : option exn)
    (segs : segment_gen) (dur : float) : world :=
  {| parse_ini := Returns demo_sets;
     ROOT_DIR := u "/opt/stt";
     WhisperModel := fun _ => Returns tt;
     temp_stem := fun fs => u "/tmp/tmp" ++ str_of_nat (size fs);
     runffmpeg := fun _ => ff;
     transcribe := fun _ _ _ => Returns (segs, mk_info dur);
     open_w := fun _ => open_error |}.

Definition three_segments : segment_gen :=
  gen_of [ mk_segment 0 1 (u "hello");
           mk_segment 1 2 (u "。。。");
           mk_segment 2 3.5 (u " it&#39;s ") ].

Definition sample_segment : Segment := mk_segment 1.2345 2.5 (u "hi").

(** The first line of a subtitle block: its index. *)
Fixpoint first_line (s : pystr) : pystr :=
  match s with
  | [] => []
  | c :: s' => if (c =? 0x0A)%N then [] else c :: first_line s'
  end.

(** ** Vocabulary of the statements *)

(** A computation that never ends the process. *)
Definition never_exits {A} (c : M A) : Prop := forall m z, fst (c m) <> Exit z.

(** A computation whose final machine is related to the initial one. *)
Definition preserves {A} (R : relation machine) (c : M A) : Prop :=
  forall m, R m (snd (c m)).

(** The relations used as frames: a field is kept, or a list field grows at
    its end. *)
Definition keeps {B} (f : machine -> B) : relation machine :=
  fun m m' => f m' = f m.

Definition grows {B} (f : machine -> list B) : relation machine :=
  fun m m' => f m `prefix_of` f m'.

(** A relation that tolerates an elementary change of the machine. *)
Definition log_ok (R : relation machine) : Prop := forall r m, R m (add_log r m).
Definition call_ok (R : relation machine) : Prop := forall c m, R m (add_call c m).
Definition files_ok (R : relation machine) : Prop := forall f m, R m (set_files f m).
Definition write_ok (R : relation machine) : Prop := forall p c m, R m (add_write p c m).
Definition wav_ok (R : relation machine) : Prop := forall v m, R m (set_wav_file v m).

(** The machine left by the [except] clause after the [try] block ended
    with [r], and the machine left by the [finally] clause. *)
Definition after_except (input_file : pystr) (r : outcome unit) (m : machine)
    : machine :=
  match r with
  | Raise e => add_log (ErrorProcessing input_file (exn_msg e)) m
  | _ => m
  end.

Definition after_finally (m : machine) : machine :=
  match wav_file m with
  | Some p =>
      if truthy p && path_exists p m
      then add_log (InfoDeleted p) (set_files (delete p (files m)) m)
      else m
  | None => m
  end.

(** The log records by which a run of [process_file] on [input_file] shows. *)
Definition attempted (input_file : pystr) (L : list log_record) : Prop :=
  InfoProcessing input_file ∈ L \/ exists msg, ErrorProcessing input_file msg ∈ L.

(** A segment whose cleaned text passes the filter. *)
Definition segment_accepted (s : Segment) : bool :=
  accepted (clean_text (seg_text s)).

(** The path of the subtitle file of an input file. *)
Definition srt_path (original_filename : pystr) : pystr :=
  fst (splitext original_filename) ++ u ".srt".

(** The arguments [convert_to_wav] hands to the transcoder. *)
Definition transcode_params (input_file wav_file_path : pystr) : list pystr :=
  [u "-i"; input_file; u "-ar"; u "16000"; u "-ac"; u "1";
   u "-af"; u "aresample=async=1"; wav_file_path].

(** Two and three decimal digits of a number. *)
Definition digits2 (n : N) : pystr :=
  [digit_char (n / 10); digit_char (n mod 10)]%N.

Definition digits3 (n : N) : pystr :=
  [digit_char (n / 100); digit_char ((n / 10) mod 10); digit_char (n mod 10)]%N.

(** A float that is neither an infinity nor a NaN. *)
Definition float_is_finite (x : float) : bool :=
  match Prim2SF x with
  | S754_infinity _ | S754_nan => false
  | _ => true
  end.

(** * Properties *)

(** ** Checks of the embedding on concrete inputs *)

Example u_ascii : u "a,b" = [0x61; 0x2C; 0x62]%N.
Proof. reflexivity. Qed.

Example u_cjk : u "你好" = [0x4F60; 0x597D]%N.
Proof. reflexivity. Qed.

Example str_of_nat_12 : str_of_nat 12 = u "12".
Proof. reflexivity. Qed.

Example strip_ex : strip (u "  a b	 ") = u "a b".
Proof. reflexivity. Qed.

Example replace_ex : replace (u "aa") (u "b") (u "aaaxaa") = u "baxb".
Proof. reflexivity. Qed.

Example noise_class_codepoints :
  noise_class =
    map Lit [0xFF0C; 0x3002; 0x3001; 0xFF1F; 0x2018; 0x2019; 0x201C; 0x201D;
             0xFF1B; 0xFF1A; 0xFF08; 0xFF5B; 0xFF5D; 0x3010; 0x3011; 0xFF09;
             0x3A; 0x3B; 0x22; 0x27]%N
    ++ [ClsSpace; Lit 0x20%N; ClsDigit]
    ++ map Lit [0x60; 0x21; 0x40; 0x23; 0x24; 0x25; 0x5E; 0x26; 0x2A; 0x28;
                0x29; 0x5F; 0x2B; 0x3D; 0x2E; 0x2C; 0x3F; 0x2F; 0x5C; 0x2D]%N.
Proof. reflexivity. Qed.

Example sub_entity_ex : sub_entity (u "a&#12;b&#;c&#x1;&#7") = u "ab&#;c&#x1;&#7".
Proof. reflexivity. Qed.

Example clean_ex1 : clean_text (u "it&#39;s&#160;fine") = u "it'sfine".
Proof. reflexivity. Qed.

Example clean_ex2 : clean_text (u "  &#160; ok  ") = u " ok".
Proof. reflexivity. Qed.

Example accepted_ex1 : accepted (u "hello") = true.
Proof. reflexivity. Qed.

Example accepted_ex2 : accepted (u "...，。？123") = false.
Proof. reflexivity. Qed.

Example accepted_ex3 : accepted (u "...，。？！123") = true.
Proof. reflexivity. Qed.

Example ms_to_time_string_ex : ms_to_time_string 3723004 = u "01:02:03,004".
Proof. reflexivity. Qed.

Example splitext_ex1 : splitext (u "/a.b/clip.tar.mp4") = (u "/a.b/clip.tar", u ".mp4").
Proof. reflexivity. Qed.

Example splitext_ex2 : splitext (u "/a.b/.hidden") = (u "/a.b/.hidden", []).
Proof. reflexivity. Qed.

Example splitext_ex3 : splitext (u "dir.d/noext") = (u "dir.d/noext", []).
Proof. reflexivity. Qed.

(** ** Facts on strings *)

Section StringFacts.

Implicit Types (s text raw : pystr) (c : N).

Lemma lstrip_fixed s :
  match s with [] => True | c :: _ => isspace c = false end -> lstrip s = s.
Proof. destruct s as [|c s]; simpl; [done|]. by intros ->. Qed.

Lemma lstrip_head s :
  match lstrip s with [] => True | c :: _ => isspace c = false end.
Proof.
  induction s as [|c s IH]; simpl; [done|].
  destruct (isspace c) eqn:E; [done|]. by simpl.
Qed.

Lemma lstrip_idem s : lstrip (lstrip s) = lstrip s.
Proof. apply lstrip_fixed, lstrip_head. Qed.

Lemma lstrip_suffix s : exists ws, s = ws ++ lstrip s.
Proof.
  induction s as [|c s [ws IH]]; simpl.
  - by exists [].
  - destruct (isspace c).
    + exists (c :: ws). simpl. by f_equal.
    + by exists [].
Qed.

Lemma lstrip_length s : length (lstrip s) <= length s.
Proof.
  destruct (lstrip_suffix s) as [ws H].
  rewrite H at 2. rewrite length_app. lia.
Qed.

Lemma rstrip_prefix s : exists ws, s = rstrip s ++ ws.
Proof.
  unfold rstrip. destruct (lstrip_suffix (rev s)) as [ws H].
  exists (rev ws). by rewrite <- rev_app_distr, <- H, rev_involutive.
Qed.

Lemma rstrip_idem s : rstrip (rstrip s) = rstrip s.
Proof. unfold rstrip. by rewrite rev_involutive, lstrip_idem. Qed.

(** Removing whitespace on the right keeps a string free of whitespace on
    the left. *)
Lemma lstrip_rstrip_fixed s : lstrip s = s -> lstrip (rstrip s) = rstrip s.
Proof.
  intros Hs. apply lstrip_fixed.
  destruct (rstrip_prefix s) as [ws Hws].
  destruct (rstrip s) as [|c t]; [done|].
  destruct (isspace c) eqn:Ec; [|done].
  exfalso. subst s. simpl in Hs. rewrite Ec in Hs.
  pose proof (lstrip_length (t ++ ws)) as Hlen.
  rewrite Hs in Hlen. simpl in Hlen. lia.
Qed.

Lemma strip_idem s : strip (strip s) = strip s.
Proof.
  unfold strip.
  rewrite (lstrip_rstrip_fixed (lstrip s)) by apply lstrip_idem.
  apply rstrip_idem.
Qed.

Lemma contains_char_false c s : contains_char c s = false <-> c ∉ s.
Proof.
  unfold contains_char. induction s as [|d s IH]; simpl.
  - split; [intros _; apply not_elem_of_nil | done].
  - rewrite orb_false_iff, IH, not_elem_of_cons, N.eqb_neq. tauto.
Qed.

Lemma strip_subseteq c s : c ∈ strip s -> c ∈ s.
Proof.
  unfold strip. intros H.
  destruct (lstrip_suffix s) as [ws1 H1].
  destruct (rstrip_prefix (lstrip s)) as [ws2 H2].
  rewrite H1, H2. rewrite !elem_of_app. tauto.
Qed.

Lemma replace_from_absent_head c old new s :
  c ∉ s -> replace_from (c :: old) new 0 s = s.
Proof.
  induction s as [|d s IH]; [done|].
  rewrite not_elem_of_cons. intros [Hne Hs].
  cbn [replace_from startswith].
  apply N.eqb_neq in Hne. rewrite Hne. cbn [andb]. by rewrite IH.
Qed.

Lemma sub_entity_absent_amp s : 0x26%N ∉ s -> sub_entity s = s.
Proof.
  unfold sub_entity. induction s as [|d s IH]; [done|].
  rewrite not_elem_of_cons. intros [Hne Hs].
  cbn [sub_entity_from].
  assert (match_entity (d :: s) = None) as ->.
  { unfold match_entity. destruct s as [|b s']; [done|].
    assert ((d =? 0x26)%N = false) as -> by (apply N.eqb_neq; congruence).
    done. }
  by rewrite IH.
Qed.

(** A text without ampersand is only trimmed by the cleaning step. *)
Lemma clean_text_no_entity raw : 0x26%N ∉ raw -> clean_text raw = strip raw.
Proof.
  intros Hraw. unfold clean_text.
  assert (0x26%N ∉ strip raw) as Hs by (intros H; by apply Hraw, strip_subseteq).
  change apos_entity with (0x26%N :: u "#39;").
  unfold replace. rewrite replace_from_absent_head by done.
  by apply sub_entity_absent_amp.
Qed.

End StringFacts.

(** ** The cleaning step *)

(** C3 (counterexample): on the raw text [it&#39;s&#160;fine] the cleaning
    step does not give [it's fine], since the entity [&#160;] is deleted
    and nothing takes its place; and the cleaned text is not always
    trimmed, since trimming is the first step and not the last. *)
Lemma C3_counterexample :
  clean_text (u "it&#39;s&#160;fine") <> u "it's fine"
  /\ strip (clean_text (u "&#160; ok")) <> clean_text (u "&#160; ok").
Proof. split; vm_compute; discriminate. Qed.

(** C3 (amended): for every raw segment text, the cleaning step first trims
    leading and trailing whitespace, then replaces each encoded apostrophe
    [&#39;] with an apostrophe, then deletes each remaining numeric
    character entity; whitespace around the raw text never changes the
    result, a text without ampersand is only trimmed, and the raw text
    [it&#39;s&#160;fine] gives [it'sfine]. *)
Theorem C3_clean_text_trims_then_normalizes :
  (forall raw,
     clean_text raw = sub_entity (replace (u "&#39;") (u "'") (strip raw)))
  /\ (forall raw, clean_text (strip raw) = clean_text raw)
  /\ (forall raw, 0x26%N ∉ raw -> clean_text raw = strip raw)
  /\ clean_text (u "it&#39;s&#160;fine") = u "it'sfine".
Proof.
  split; [done|]. split; [|split].
  - intros raw. unfold clean_text. by rewrite strip_idem.
  - apply clean_text_no_entity.
  - reflexivity.
Qed.

(** The order of the specification's wording (entities first, trimming
    last) and the order of the code give different texts when an entity
    stands at an end of the raw text. *)
Lemma spec_clean_text_differs :
  spec_clean_text (u "&#160; ok") = u "ok"
  /\ clean_text (u "&#160; ok") = u " ok"
  /\ spec_clean_text (u "it&#39;s&#160;fine") = u "it'sfine".
Proof. by repeat split. Qed.

(** ** The noise filter *)

Lemma in_class_app cls1 cls2 c :
  in_class (cls1 ++ cls2) c = in_class cls1 c || in_class cls2 c.
Proof. apply existsb_app. Qed.

Lemma in_class_literals l c : in_class (map Lit l) c = contains_char c l.
Proof.
  unfold in_class, contains_char. induction l as [|d l IH]; [done|].
  simpl. by rewrite IH, (N.eqb_sym d c).
Qed.

Lemma contains_char_app c l1 l2 :
  contains_char c (l1 ++ l2) = contains_char c l1 || contains_char c l2.
Proof. apply existsb_app. Qed.

(** The noise set: the literal marks, Unicode whitespace and Unicode
    decimal digits. *)
Lemma noise_char_spec c :
  noise_char c = contains_char c noise_marks || isspace c || isdecimal c.
Proof.
  unfold noise_char, noise_class, noise_marks.
  rewrite !in_class_app, !in_class_literals, !contains_char_app.
  cbn [in_class contains_char existsb item_matches].
  rewrite !(N.eqb_sym _ c).
  repeat match goal with
         | |- context [contains_char c ?l] =>
             let b := fresh "b" in generalize (contains_char c l); intros b
         end.
  generalize (isspace c) (isdecimal c).
  repeat match goal with
         | |- context [(c =? ?d)%N] =>
             let b := fresh "b" in generalize (c =? d)%N; intros b
         end.
  intros; repeat match goal with b : bool |- _ => destruct b end; reflexivity.
Qed.

(** With the newline in the class, the pattern holds exactly of the strings
    made of characters of the class. *)
Lemma match_star_end_forallb cls s :
  in_class cls 0x0A%N = true ->
  match_star_end cls s = forallb (in_class cls) s.
Proof.
  intros Hnl. induction s as [|c s IH]; [done|].
  cbn [match_star_end forallb]. rewrite IH.
  destruct (in_class cls c) eqn:Ec; cbn [andb].
  - destruct (forallb (in_class cls) s) eqn:Es; [done|].
    by destruct s.
  - destruct s as [|d s]; [|done]. simpl.
    destruct (c =? 0x0A)%N eqn:E; [|done].
    apply N.eqb_eq in E. congruence.
Qed.

Lemma match_noise_forallb s : match_noise s = forallb noise_char s.
Proof. apply match_star_end_forallb. reflexivity. Qed.

Lemma accepted_spec text :
  accepted text = truthy text && negb (forallb noise_char text).
Proof. unfold accepted. by rewrite match_noise_forallb. Qed.

(** C4: a cleaned text is rejected exactly when it is empty or made only of
    characters of the noise set (the literal CJK and ASCII marks of the
    pattern, whitespace, decimal digits); a text with one character outside
    the set is accepted, as are [hello], [你好] and [a,b]. *)
Theorem C4_filter_rejects_exactly_noise :
  (forall text,
     accepted text = false <->
     text = [] \/ (forall c, c ∈ text -> noise_char c = true))
  /\ (forall text c, c ∈ text -> noise_char c = false -> accepted text = true)
  /\ (forall c, noise_char c =
                contains_char c noise_marks || isspace c || isdecimal c)
  /\ accepted (u "hello") = true
  /\ accepted (u "你好") = true
  /\ accepted (u "a,b") = true.
Proof.
  assert (forall text, forallb noise_char text = true <->
                       forall c, c ∈ text -> noise_char c = true) as Hall.
  { intros text. rewrite forallb_forall.
    split; intros H c Hc; apply H; by apply list_elem_of_In. }
  split; [|split; [|split; [|by repeat split]]].
  - intros text. rewrite accepted_spec. destruct text as [|c text].
    + split; [by left | done].
    + cbn [truthy andb]. rewrite negb_false_iff, Hall.
      split; [by right | by intros [?|?]].
  - intros text c Hc Hnoise. rewrite accepted_spec.
    destruct text as [|d text]; [by apply elem_of_nil in Hc|].
    cbn [truthy andb]. apply negb_true_iff.
    destruct (forallb noise_char (d :: text)) eqn:E; [|done].
    apply Hall with (c := c) in E; [congruence | done].
  - apply noise_char_spec.
Qed.

(** ** Reasoning on computations *)


Lemma never_exits_ret {A} (a : A) : never_exits (ret a).
Proof. by intros m z. Qed.

Lemma never_exits_raise {A} e : never_exits (@raise A e).
Proof. by intros m z. Qed.

Lemma never_exits_modify f : never_exits (modify f).
Proof. by intros m z. Qed.

Lemma never_exits_get : never_exits get.
Proof. by intros m z. Qed.

Lemma never_exits_of_reply {A} (r : reply A) : never_exits (of_reply r).
Proof. by destruct r; intros m z. Qed.

Lemma never_exits_bind {A B} (c : M A) (k : A -> M B) :
  never_exits c -> (forall a, never_exits (k a)) -> never_exits (bind c k).
Proof.
  intros Hc Hk m z. unfold bind. specialize (Hc m).
  destruct (c m) as [[a|e|z'] m1]; simpl in *; [apply Hk | done | by destruct (Hc z')].
Qed.

Lemma never_exits_float_div x y : never_exits (of_outcome (float_div x y)).
Proof. intros m z. unfold of_outcome, float_div. simpl. by destruct (_ =? _)%float. Qed.

Lemma never_exits_int_of_float x : never_exits (of_outcome (int_of_float x)).
Proof.
  intros m z. unfold of_outcome, int_of_float. simpl.
  by destruct (Prim2SF x) as [| | |[] ? ?].
Qed.

Section Preserves.

Context (R : relation machine) `{!PreOrder R}.

Lemma preserves_ret {A} (a : A) : preserves R (ret a).
Proof. intros m. simpl. reflexivity. Qed.

Lemma preserves_raise {A} e : preserves R (@raise A e).
Proof. intros m. simpl. reflexivity. Qed.

Lemma preserves_get : preserves R get.
Proof. intros m. simpl. reflexivity. Qed.

Lemma preserves_of_outcome {A} (r : outcome A) : preserves R (of_outcome r).
Proof. intros m. simpl. reflexivity. Qed.

Lemma preserves_of_reply {A} (r : reply A) : preserves R (of_reply r).
Proof. destruct r; intros m; simpl; reflexivity. Qed.

Lemma preserves_modify f : (forall m, R m (f m)) -> preserves R (modify f).
Proof. intros H m. apply H. Qed.

Lemma preserves_bind {A B} (c : M A) (k : A -> M B) :
  preserves R c -> (forall a, preserves R (k a)) -> preserves R (bind c k).
Proof.
  intros Hc Hk m. unfold bind. specialize (Hc m).
  destruct (c m) as [[a|e|z] m1]; simpl in *; [|done|done].
  etransitivity; [exact Hc | apply Hk].
Qed.

End Preserves.

#[local] Instance keeps_preorder {B} (f : machine -> B) : PreOrder (keeps f).
Proof.
  split; [intros m; by unfold keeps | intros m1 m2 m3 H1 H2; unfold keeps in *; congruence].
Qed.

#[local] Instance grows_preorder {B} (f : machine -> list B) : PreOrder (grows f).
Proof.
  split; [intros m; by unfold grows | intros m1 m2 m3 H1 H2; unfold grows in *; by etransitivity].
Qed.

Create HintDb frame discriminated.

#[local] Hint Resolve never_exits_ret never_exits_raise never_exits_modify
  never_exits_get never_exits_of_reply never_exits_float_div
  never_exits_int_of_float : frame.
#[local] Hint Resolve preserves_ret preserves_raise preserves_get
  preserves_of_outcome preserves_of_reply : frame.

(** Breaks a bind into its two parts and closes the elementary cases. *)
Ltac frame_step :=
  first [ apply never_exits_bind; [|intros ?]
        | solve [eauto with frame] ].

(** ** Frames of the program parts *)

Section ProgramFrames.

Variable w : world.

Lemma never_exits_write_srt_loop segments original_filename total_duration srt_content :
  never_exits (write_srt_loop segments original_filename total_duration srt_content).
Proof.
  revert srt_content.
  induction segments as [|segment rest IH|e]; intros srt_content; simpl;
    [apply never_exits_ret| |apply never_exits_raise].
  repeat frame_step.
Qed.

Lemma never_exits_write_text_file path content :
  never_exits (write_text_file w path content).
Proof.
  unfold write_text_file. destruct (open_w w path); eauto with frame.
Qed.

Lemma never_exits_write_srt segments original_filename total_duration :
  never_exits (write_srt w segments original_filename total_duration).
Proof.
  unfold write_srt. apply never_exits_bind; [apply never_exits_write_srt_loop|].
  intros [|b srt_content]; [apply never_exits_modify|].
  apply never_exits_bind; [apply never_exits_write_text_file|].
  intros _. apply never_exits_modify.
Qed.

Lemma never_exits_convert_to_wav input_file :
  never_exits (convert_to_wav w input_file).
Proof.
  unfold convert_to_wav, named_temporary_file, call_runffmpeg.
  repeat frame_step. case_bool_decide; eauto with frame.
Qed.

Lemma never_exits_process_file_body input_file model_name language :
  never_exits (process_file_body w input_file model_name language).
Proof.
  unfold process_file_body, call_parse_ini, call_WhisperModel, call_transcribe,
    logger_info.
  repeat first [ apply never_exits_convert_to_wav
               | apply never_exits_write_srt
               | frame_step ].
Qed.

Context (R : relation machine) `{!PreOrder R}.

Lemma preserves_write_srt_loop segments original_filename total_duration srt_content :
  log_ok R ->
  preserves R (write_srt_loop segments original_filename total_duration srt_content).
Proof.
  intros Hlog. revert srt_content.
  induction segments as [|segment rest IH|e]; intros srt_content; simpl;
    [by apply preserves_ret| |by apply preserves_raise].
  apply preserves_bind; [done|by apply preserves_of_outcome|intros progress].
  apply preserves_bind; [done|apply preserves_modify; intros m; apply Hlog|intros _].
  apply preserves_bind; [done|by apply preserves_of_outcome|intros ms_start].
  apply preserves_bind; [done|by apply preserves_of_outcome|intros ms_end].
  apply IH.
Qed.

Lemma preserves_write_text_file path content :
  files_ok R -> write_ok R -> preserves R (write_text_file w path content).
Proof.
  intros Hfiles Hwrite. unfold write_text_file.
  destruct (open_w w path); [by apply preserves_raise|].
  apply preserves_modify. intros m.
  etransitivity; [apply Hfiles | apply Hwrite].
Qed.

Lemma preserves_write_srt segments original_filename total_duration :
  log_ok R -> files_ok R -> write_ok R ->
  preserves R (write_srt w segments original_filename total_duration).
Proof.
  intros Hlog Hfiles Hwrite. unfold write_srt.
  apply preserves_bind; [done|by apply preserves_write_srt_loop|].
  intros [|b srt_content].
  - apply preserves_modify. intros m. apply Hlog.
  - apply preserves_bind; [done|by apply preserves_write_text_file|intros _].
    apply preserves_modify. intros m. apply Hlog.
Qed.

Lemma preserves_convert_to_wav input_file :
  files_ok R -> call_ok R -> preserves R (convert_to_wav w input_file).
Proof.
  intros Hfiles Hcall. unfold convert_to_wav, named_temporary_file, call_runffmpeg.
  apply preserves_bind; [done| |intros wav].
  - apply preserves_bind; [done|by apply preserves_get|intros m0].
    apply preserves_bind; [done|apply preserves_modify; intros m; apply Hfiles|intros _].
    by apply preserves_ret.
  - apply preserves_bind; [done| |intros rs].
    + apply preserves_bind; [done|apply preserves_modify; intros m; apply Hcall|intros _].
      by apply preserves_of_reply.
    + case_bool_decide; [by apply preserves_raise | by apply preserves_ret].
Qed.

Lemma preserves_call_transcribe model wav kw :
  call_ok R -> preserves R (call_transcribe w model wav kw).
Proof.
  intros Hcall. unfold call_transcribe.
  apply preserves_bind; [done|apply preserves_modify; intros m; apply Hcall|intros _].
  by apply preserves_of_reply.
Qed.

Lemma preserves_process_file_body input_file model_name language :
  log_ok R -> call_ok R -> files_ok R -> write_ok R -> wav_ok R ->
  preserves R (process_file_body w input_file model_name language).
Proof.
  intros Hlog Hcall Hfiles Hwrite Hwav.
  unfold process_file_body, call_parse_ini, call_WhisperModel.
  apply preserves_bind; [done| |intros sets].
  { apply preserves_bind; [done|apply preserves_modify; intros m; apply Hcall|intros _].
    by apply preserves_of_reply. }
  apply preserves_bind; [done| |intros model].
  { apply preserves_bind; [done|apply preserves_modify; intros m; apply Hcall|intros _].
    apply preserves_bind; [done|by apply preserves_of_reply|intros _].
    by apply preserves_ret. }
  apply preserves_bind; [done|apply preserves_modify; intros m; apply Hlog|intros _].
  apply preserves_bind; [done|by apply preserves_convert_to_wav|intros wav].
  apply preserves_bind; [done|apply preserves_modify; intros m; apply Hwav|intros _].
  apply preserves_bind; [done|by apply preserves_call_transcribe|intros r].
  by apply preserves_write_srt.
Qed.

End ProgramFrames.

(** ** The per-file processor *)

(** Closes the side conditions of the frame lemmas for [keeps] and [grows]. *)
Ltac tolerant :=
  unfold log_ok, call_ok, files_ok, write_ok, wav_ok, keeps, grows;
  intros; simpl; first [ reflexivity | by apply prefix_app_r ].

(** Runs the monadic plumbing of a computation applied to a machine. *)
Ltac run :=
  cbv beta iota zeta
    delta [bind ret raise modify get of_reply of_outcome sys_exit
           logger_info logger_warning logger_error print].

Lemma run_bind {A B} (c : M A) (k : A -> M B) m :
  bind c k m =
  match c m with
  | (Ok a, m') => k a m'
  | (Raise e, m') => (Raise e, m')
  | (Exit z, m') => (Exit z, m')
  end.
Proof. reflexivity. Qed.

Section ProcessFile.

Variable w : world.

Lemma process_file_finally_eq m :
  process_file_finally m = (Ok tt, after_finally m).
Proof.
  unfold process_file_finally, after_finally, get. rewrite run_bind.
  destruct (wav_file m) as [p|]; [|done].
  by destruct (truthy p && path_exists p m).
Qed.

(** [process_file] in one equation: the [try] block, then the [except]
    clause if it raised, then the [finally] clause. *)
Lemma process_file_eq input_file model_name language m :
  process_file w input_file model_name language m =
  let rm := process_file_body w input_file model_name language
              (set_wav_file None m) in
  (match fst rm with Exit z => Exit z | _ => Ok tt end,
   after_finally (after_except input_file (fst rm) (snd rm))).
Proof.
  unfold process_file. rewrite run_bind. cbn [modify].
  unfold try_except_finally.
  destruct (process_file_body _ _ _ _ _) as [[[]|e|z] m1]; cbn [fst snd after_except];
    unfold process_file_except, logger_error; cbn [modify];
    by rewrite process_file_finally_eq.
Qed.

(** No error leaves [process_file]. *)
Lemma process_file_returns input_file model_name language m :
  fst (process_file w input_file model_name language m) = Ok tt.
Proof.
  rewrite process_file_eq. cbn [fst].
  pose proof (never_exits_process_file_body w input_file model_name language
                (set_wav_file None m)) as Hne.
  destruct (fst (process_file_body _ _ _ _ _)) as [[]|e|z]; [done|done|].
  by destruct (Hne z).
Qed.

Lemma after_finally_log m : log m `prefix_of` log (after_finally m).
Proof.
  unfold after_finally. destruct (wav_file m) as [p|]; [|done].
  destruct (truthy p && path_exists p m); [|done]. by apply prefix_app_r.
Qed.

(** A [try] block that returns has logged the start of the processing. *)
Lemma process_file_body_ok_logged input_file model_name language m m1 :
  process_file_body w input_file model_name language m = (Ok tt, m1) ->
  (log m ++ [InfoProcessing input_file]) `prefix_of` log m1.
Proof.
  unfold process_file_body, call_parse_ini, call_WhisperModel. run.
  destruct (parse_ini w) as [sets|e]; [|done].
  destruct (WhisperModel w _) as [[]|e]; [|done].
  match goal with |- context [convert_to_wav w input_file ?m0] =>
    pose proof (preserves_convert_to_wav w (grows log) input_file
                  ltac:(tolerant) ltac:(tolerant) m0) as Ha;
    destruct (convert_to_wav w input_file m0) as [[wav|e|z] mb]; [|done|done]
  end.
  match goal with |- context [call_transcribe w ?a ?b ?c ?m0] =>
    pose proof (preserves_call_transcribe w (grows log) a b c ltac:(tolerant) m0) as Hb;
    destruct (call_transcribe w a b c m0) as [[r|e|z] mc]; [|done|done]
  end.
  intros Hc.
  pose proof (preserves_write_srt w (grows log) (fst r) input_file (duration (snd r))
                ltac:(tolerant) ltac:(tolerant) ltac:(tolerant) mc) as Hd.
  rewrite Hc in Hd. unfold grows in *. cbn [snd log set_wav_file] in *.
  etransitivity; [|exact Hd]. etransitivity; [|exact Hb]. exact Ha.
Qed.

(** What one run of [process_file] adds to the log names its file. *)
Lemma process_file_log input_file model_name language m :
  exists L,
    log (snd (process_file w input_file model_name language m)) = log m ++ L
    /\ attempted input_file L.
Proof.
  rewrite process_file_eq. cbn [snd].
  set (m0 := set_wav_file None m).
  pose proof (preserves_process_file_body w (grows log) input_file model_name
                language ltac:(tolerant) ltac:(tolerant) ltac:(tolerant)
                ltac:(tolerant) ltac:(tolerant) m0) as Hbody.
  pose proof (never_exits_process_file_body w input_file model_name language m0)
    as Hne.
  pose proof (process_file_body_ok_logged input_file model_name language m0) as Hok.
  destruct (process_file_body w input_file model_name language m0)
    as [[[]|e|z] m1]; cbn [fst snd after_except] in *.
  - destruct (Hok m1 eq_refl) as [K HK].
    destruct (after_finally_log m1) as [K' HK'].
    exists ([InfoProcessing input_file] ++ K ++ K'). split.
    + rewrite HK', HK. cbn [log m0 set_wav_file]. by rewrite <- !app_assoc.
    + left. set_solver.
  - destruct Hbody as [K HK].
    destruct (after_finally_log (add_log (ErrorProcessing input_file (exn_msg e)) m1))
      as [K' HK'].
    exists (K ++ [ErrorProcessing input_file (exn_msg e)] ++ K'). split.
    + rewrite HK'. cbn [log add_log]. rewrite HK. cbn [log m0 set_wav_file].
      by rewrite <- !app_assoc.
    + right. exists (exn_msg e). set_solver.
  - by destruct (Hne z).
Qed.

End ProcessFile.

(** ** Error containment and the batch loop *)

Section Batch.

Variable w : world.

(** A subtitle write that raises has written nothing. *)
Lemma write_srt_raise_keeps segments original_filename total_duration m e m' :
  write_srt w segments original_filename total_duration m = (Raise e, m') ->
  writes m' = writes m /\ files m' = files m.
Proof.
  unfold write_srt. rewrite run_bind.
  pose proof (preserves_write_srt_loop (keeps writes) segments original_filename
                total_duration [] ltac:(tolerant) m) as Hw.
  pose proof (preserves_write_srt_loop (keeps files) segments original_filename
                total_duration [] ltac:(tolerant) m) as Hf.
  destruct (write_srt_loop segments original_filename total_duration [] m)
    as [[srt_content|e'|z] m1]; unfold keeps in *; cbn [snd] in *.
  - destruct srt_content as [|b srt_content]; [done|].
    unfold write_text_file. rewrite run_bind.
    destruct (open_w w _) as [e'|]; [|done].
    unfold raise. by intros [= _ <-].
  - by intros [= _ <-].
  - done.
Qed.

(** A [try] block that raises has written no subtitle. *)
Lemma process_file_body_raise_keeps_writes input_file model_name language m e m1 :
  process_file_body w input_file model_name language m = (Raise e, m1) ->
  writes m1 = writes m.
Proof.
  unfold process_file_body, call_parse_ini, call_WhisperModel. run.
  destruct (parse_ini w) as [sets|e0]; [|by intros [= _ <-]].
  destruct (WhisperModel w _) as [[]|e0]; [|by intros [= _ <-]].
  match goal with |- context [convert_to_wav w input_file ?m0] =>
    pose proof (preserves_convert_to_wav w (keeps writes) input_file
                  ltac:(tolerant) ltac:(tolerant) m0) as Ha;
    destruct (convert_to_wav w input_file m0) as [[wav|e0|z] mb]
  end; unfold keeps in Ha; cbn [snd writes set_wav_file add_log add_call] in Ha;
    [|by intros [= _ <-]|done].
  match goal with |- context [call_transcribe w ?a ?b ?c ?m0] =>
    pose proof (preserves_call_transcribe w (keeps writes) a b c ltac:(tolerant) m0) as Hb;
    destruct (call_transcribe w a b c m0) as [[r|e0|z] mc]
  end; unfold keeps in Hb; cbn [snd writes set_wav_file add_log add_call] in Hb;
    [|intros [= _ <-]; congruence|done].
  intros Hc. apply write_srt_raise_keeps in Hc as [Hc _]. congruence.
Qed.

Lemma after_finally_writes m : writes (after_finally m) = writes m.
Proof.
  unfold after_finally. destruct (wav_file m) as [p|]; [|done].
  by destruct (truthy p && path_exists p m).
Qed.

(** An error of the [try] block is logged with the file and its message,
    and the run of [process_file] ends without a subtitle written. *)
Lemma process_file_error_contained input_file model_name language m e m1 :
  process_file_body w input_file model_name language (set_wav_file None m)
    = (Raise e, m1) ->
  fst (process_file w input_file model_name language m) = Ok tt
  /\ ErrorProcessing input_file (exn_msg e)
       ∈ log (snd (process_file w input_file model_name language m))
  /\ writes (snd (process_file w input_file model_name language m)) = writes m.
Proof.
  intros Hbody. split; [apply process_file_returns|].
  rewrite process_file_eq, Hbody. cbn [fst snd after_except]. split.
  - destruct (after_finally_log (add_log (ErrorProcessing input_file (exn_msg e)) m1))
      as [K ->].
    cbn [log add_log]. set_solver.
  - rewrite after_finally_writes. cbn [writes add_log].
    by rewrite (process_file_body_raise_keeps_writes _ _ _ _ _ _ Hbody).
Qed.

(** The loop of [main]: every file is processed, in list order. *)
Lemma for_each_process_file model_name language input_files m :
  exists Ls,
    fst (for_each input_files
           (fun f => process_file w f model_name language) m) = Ok tt
    /\ log (snd (for_each input_files
                   (fun f => process_file w f model_name language) m))
       = log m ++ concat Ls
    /\ Forall2 attempted input_files Ls.
Proof.
  revert m. induction input_files as [|f input_files IH]; intros m.
  - exists []. by rewrite app_nil_r.
  - cbn [for_each]. rewrite run_bind.
    pose proof (process_file_returns w f model_name language m) as Hr.
    destruct (process_file_log w f model_name language m) as (L & HL & Hatt).
    destruct (process_file w f model_name language m) as [r m1].
    cbn [fst snd] in *. subst r.
    destruct (IH m1) as (Ls & Hok & Hlog & Hall).
    exists (L :: Ls). split; [done|]. split; [|by constructor].
    rewrite Hlog, HL. cbn [concat]. by rewrite app_assoc.
Qed.

Lemma main_well_formed model_name language input_file input_files m :
  main w (model_name :: language :: input_file :: input_files) m =
  for_each (input_file :: input_files)
    (fun f => process_file w f model_name language) m.
Proof. reflexivity. Qed.

Lemma main_usage args m :
  length args < 3 -> main w args m = (Exit 1, add_stdout usage m).
Proof.
  intros Hlen. unfold main.
  destruct (length args <? 3) eqn:E; [done|].
  apply Nat.ltb_ge in E. lia.
Qed.

End Batch.



(** ** The subtitle blocks *)

Section Blocks.

Implicit Types (segments : segment_gen) (srt_content content : list pystr).

Lemma uint_chars_digits d c : c ∈ uint_chars d -> (0x30 <= c <= 0x39)%N.
Proof.
  induction d; cbn [uint_chars]; rewrite ?elem_of_cons;
    try (intros [->|H]; [unfold digit_char; lia | by apply IHd]).
  intros H. by apply elem_of_nil in H.
Qed.

Lemma str_of_nat_no_newline n : 0x0A%N ∉ str_of_nat n.
Proof. intros H. apply uint_chars_digits in H. lia. Qed.

Lemma first_line_app a b : 0x0A%N ∉ a -> first_line (a ++ 0x0A%N :: b) = a.
Proof.
  induction a as [|c a IH]; [done|].
  rewrite not_elem_of_cons. intros [Hne Ha]. cbn [app first_line].
  assert ((c =? 0x0A)%N = false) as -> by (apply N.eqb_neq; congruence).
  by rewrite IH.
Qed.

(** The first line of a block is the count of blocks so far plus one. *)
Lemma first_line_srt_block srt_content startTime endTime text :
  first_line (srt_block srt_content startTime endTime text)
  = str_of_nat (length srt_content + 1).
Proof. unfold srt_block. cbn [app]. apply first_line_app, str_of_nat_no_newline. Qed.

(** What the loop appends to the accumulator. *)
Lemma write_srt_loop_blocks segments original_filename total_duration
    srt_content m content m' :
  write_srt_loop segments original_filename total_duration srt_content m
    = (Ok content, m') ->
  exists new,
    content = srt_content ++ new
    /\ length new = length (List.filter segment_accepted (yielded segments))
    /\ forall i blk, new !! i = Some blk ->
         first_line blk = str_of_nat (length srt_content + i + 1).
Proof.
  revert srt_content m.
  induction segments as [|segment rest IH|e]; intros srt_content m; cbn [write_srt_loop].
  - intros [= <- <-]. exists []. rewrite app_nil_r. by repeat split.
  - run.
    destruct (float_div _ _) as [progress|e|z]; [|done|done].
    destruct (int_of_float (seg_start segment * 1000)) as [ms_start|e|z]; [|done|done].
    destruct (int_of_float (seg_end segment * 1000)) as [ms_end|e|z]; [|done|done].
    cbn [yielded List.filter]. unfold segment_accepted at 1.
    destruct (accepted (clean_text (seg_text segment))) eqn:Eacc;
      intros Hloop; apply IH in Hloop as (new & Hc & Hlen & Hidx); clear IH; subst content.
    + eexists (_ :: new). split; [by rewrite <- app_assoc|]. split.
      * cbn [length]. by rewrite Hlen.
      * intros [|i] blk; cbn.
        -- intros [= <-]. rewrite first_line_srt_block. f_equal. lia.
        -- intros Hi. rewrite (Hidx i blk Hi), length_app. cbn [length]. f_equal. lia.
    + by exists new.
  - done.
Qed.

Lemma int_of_float_finite x :
  float_is_finite x = true -> exists z, int_of_float x = Ok z.
Proof.
  unfold float_is_finite, int_of_float.
  destruct (Prim2SF x) as [| | |s m e]; try done; by eexists.
Qed.

(** The loop returns its blocks when the duration is not zero, the
    generator ends without raising, and the times are finite. *)
Lemma write_srt_loop_returns (l : list Segment) original_filename total_duration
    srt_content m :
  (total_duration =? 0)%float = false ->
  Forall (fun s => float_is_finite (seg_start s * 1000) = true
                   /\ float_is_finite (seg_end s * 1000) = true) l ->
  exists content,
    fst (write_srt_loop (gen_of l) original_filename total_duration srt_content m)
    = Ok content.
Proof.
  intros Hdur Hfin. revert srt_content m.
  induction Hfin as [|s l [Hs He] _ IH]; intros srt_content m.
  - by eexists.
  - cbn [gen_of fold_right write_srt_loop]. run. unfold float_div. rewrite Hdur.
    destruct (int_of_float_finite _ Hs) as [zs ->].
    destruct (int_of_float_finite _ He) as [ze ->].
    apply IH.
Qed.

End Blocks.

(** C5: when the loop has consumed the whole segment sequence, the first
    lines of the blocks it built are 1, 2, ..., k in this order, where k is
    the number of segments that passed the filter, however many were
    rejected in between. *)
Theorem C5_block_indices_contiguous :
  forall (segments : segment_gen) (original_filename : pystr)
         (total_duration : float) (m m' : machine) (content : list pystr),
    write_srt_loop segments original_filename total_duration [] m
      = (Ok content, m') ->
    map first_line content = map str_of_nat (seq 1 (length content))
    /\ length content = length (List.filter segment_accepted (yielded segments)).
Proof.
  intros segments original_filename total_duration m m' content Hloop.
  apply write_srt_loop_blocks in Hloop as (new & -> & Hlen & Hidx).
  cbn [app] in *. split; [|done].
  apply list_eq. intros i. rewrite !list_lookup_fmap.
  destruct (new !! i) as [blk|] eqn:Hi; cbn.
  - rewrite (Hidx i blk Hi). apply lookup_lt_Some in Hi.
    rewrite lookup_seq_lt by done. cbn. f_equal. f_equal. lia.
  - apply lookup_ge_None in Hi. by rewrite lookup_seq_ge.
Qed.

(** C5 (instance): of three segments whose second is rejected, two blocks
    are built, with first lines 1 and 2. *)
Lemma C5_three_segments_second_rejected :
  map segment_accepted (yielded three_segments) = [true; false; true]
  /\ map first_line
       (match fst (write_srt_loop three_segments (u "/v/a.mp4") 3.5 []
                     initial_machine) with
        | Ok content => content
        | _ => []
        end) = [u "1"; u "2"].
Proof.
  split; [reflexivity|].
  destruct (write_srt_loop three_segments (u "/v/a.mp4") 3.5 [] initial_machine)
    as [r m'] eqn:E.
  assert (exists content, r = Ok content /\ length content = 2) as (content & -> & Hlen).
  { vm_compute in E. injection E as <- _. by eexists. }
  cbn [fst].
  destruct (C5_block_indices_contiguous _ _ _ _ _ _ E) as [-> _].
  rewrite Hlen. reflexivity.
Defined.

(** ** Writing the subtitle file *)

Section WriteSrt.

Variable w : world.

Lemma filter_accepted_nil (l : list Segment) :
  List.filter segment_accepted l = []
  <-> Forall (fun s => segment_accepted s = false) l.
Proof.
  induction l as [|s l IH]; cbn [List.filter].
  - split; [constructor | done].
  - rewrite Forall_cons. destruct (segment_accepted s).
    + split; [done | by intros [? _]].
    + rewrite IH. split; [by split | by intros [_ ?]].
Qed.

Lemma write_srt_loop_rejected segments original_filename total_duration m content m' :
  write_srt_loop segments original_filename total_duration [] m = (Ok content, m') ->
  content = [] <-> Forall (fun s => segment_accepted s = false) (yielded segments).
Proof.
  intros Hloop. apply write_srt_loop_blocks in Hloop as (new & -> & Hlen & _).
  cbn [app]. rewrite <- filter_accepted_nil.
  by rewrite <- (length_zero_iff_nil new), Hlen, length_zero_iff_nil.
Qed.

(** [write_srt] after a loop that built no block. *)
Lemma write_srt_no_block segments original_filename total_duration m m1 :
  write_srt_loop segments original_filename total_duration [] m = (Ok [], m1) ->
  write_srt w segments original_filename total_duration m
  = (Ok tt, add_log (WarnNoValid original_filename) m1).
Proof. intros Hloop. unfold write_srt. rewrite run_bind, Hloop. reflexivity. Qed.

(** [write_srt] after a loop that built blocks, when the file opens. *)
Lemma write_srt_blocks segments original_filename total_duration m m1 content :
  write_srt_loop segments original_filename total_duration [] m = (Ok content, m1) ->
  content <> [] ->
  open_w w (srt_path original_filename) = None ->
  write_srt w segments original_filename total_duration m
  = (Ok tt,
     add_log (InfoSaved (srt_path original_filename))
       (add_write (srt_path original_filename) (join [0x0A%N] content)
          (set_files (<[srt_path original_filename := join [0x0A%N] content]>
                        (files m1)) m1))).
Proof.
  intros Hloop Hne Hopen. unfold write_srt. rewrite run_bind, Hloop.
  destruct content as [|b content]; [done|].
  cbv zeta. fold (srt_path original_filename).
  unfold write_text_file. rewrite Hopen. reflexivity.
Qed.

Lemma write_srt_loop_keeps segments original_filename total_duration srt_content m :
  let m1 := snd (write_srt_loop segments original_filename total_duration srt_content m) in
  files m1 = files m /\ writes m1 = writes m.
Proof.
  split.
  - apply (preserves_write_srt_loop (keeps files)). tolerant.
  - apply (preserves_write_srt_loop (keeps writes)). tolerant.
Qed.

End WriteSrt.

(** C7: after the segment sequence is consumed, no block was built exactly
    when every segment was rejected; then [write_srt] creates and writes no
    file and logs the no-valid-segments warning; otherwise, the file being
    opened, it writes the subtitle file once, with the blocks joined by
    newlines as its whole content, and logs the saved path. *)
Theorem C7_subtitle_written_once_or_not_at_all :
  forall (w : world) (segments : segment_gen) (original_filename : pystr)
         (total_duration : float) (m m1 : machine) (content : list pystr),
    write_srt_loop segments original_filename total_duration [] m
      = (Ok content, m1) ->
    let r := write_srt w segments original_filename total_duration m in
    let srt_file := srt_path original_filename in
    (content = [] <->
       Forall (fun s => segment_accepted s = false) (yielded segments))
    /\ (content = [] ->
          fst r = Ok tt
          /\ files (snd r) = files m
          /\ writes (snd r) = writes m
          /\ log (snd r) = log m1 ++ [WarnNoValid original_filename])
    /\ (content <> [] -> open_w w srt_file = None ->
          fst r = Ok tt
          /\ files (snd r) = <[srt_file := join [0x0A%N] content]> (files m)
          /\ writes (snd r) = writes m ++ [(srt_file, join [0x0A%N] content)]
          /\ log (snd r) = log m1 ++ [InfoSaved srt_file]).
Proof.
  intros w segments original_filename total_duration m m1 content Hloop r srt_file.
  destruct (write_srt_loop_keeps segments original_filename total_duration [] m)
    as [Hf Hw].
  rewrite Hloop in Hf, Hw. cbn [snd] in Hf, Hw.
  split; [by eapply write_srt_loop_rejected|]. split.
  - intros ->. subst r. rewrite (write_srt_no_block w _ _ _ _ _ Hloop).
    cbn. by rewrite Hf, Hw.
  - intros Hne Hopen. subst r srt_file.
    rewrite (write_srt_blocks w _ _ _ _ _ _ Hloop Hne Hopen).
    cbn. by rewrite Hf, Hw.
Qed.

(** C7 (instance): the three sample segments give a file written once with
    two blocks. *)
Lemma C7_three_segments_written_once :
  writes (snd (write_srt (demo_world (Returns (u "ok")) None three_segments 3.5)
                 three_segments (u "/v/a.mp4") 3.5 initial_machine))
  = [(u "/v/a.srt",
      u "1
00:00:00,000 --> 00:00:01,000
hello

2
00:00:02,000 --> 00:00:03,500
it's
")].
Proof.
  destruct (write_srt_loop three_segments (u "/v/a.mp4") 3.5 [] initial_machine)
    as [r m1] eqn:E.
  assert (exists content, r = Ok content /\ content <> []
            /\ join [0x0A%N] content = u "1
00:00:00,000 --> 00:00:01,000
hello

2
00:00:02,000 --> 00:00:03,500
it's
") as (content & -> & Hne & Hjoin).
  { vm_compute in E. injection E as <- _. eexists. split; [done|]. split; [done|].
    reflexivity. }
  destruct (C7_subtitle_written_once_or_not_at_all
              (demo_world (Returns (u "ok")) None three_segments 3.5)
              _ _ _ _ _ _ E) as (_ & _ & H).
  destruct (H Hne eq_refl) as (_ & _ & -> & _).
  rewrite Hjoin. reflexivity.
Defined.

(** ** Time stamps *)

Section TimeStamps.

Lemma zero_pad_2 n : (n < 100)%N -> zero_pad 2 n = digits2 n.
Proof.
  intros Hn.
  assert (Forall (fun k => zero_pad 2 k = digits2 k) (N.of_nat <$> seq 0 100)) as H.
  { apply (bool_decide_unpack _). by vm_compute. }
  rewrite Forall_forall in H. apply H.
  apply list_elem_of_fmap. exists (N.to_nat n). split; [lia|].
  apply elem_of_seq. lia.
Qed.

Lemma zero_pad_3 n : (n < 1000)%N -> zero_pad 3 n = digits3 n.
Proof.
  intros Hn.
  assert (Forall (fun k => zero_pad 3 k = digits3 k) (N.of_nat <$> seq 0 1000)) as H.
  { apply (bool_decide_unpack _). by vm_compute. }
  rewrite Forall_forall in H. apply H.
  apply list_elem_of_fmap. exists (N.to_nat n). split; [lia|].
  apply elem_of_seq. lia.
Qed.

(** The shape HH:MM:SS,mmm of a time stamp below one hundred hours. *)
Lemma ms_to_time_string_shape ms :
  (0 <= ms < 360000000)%Z ->
  ms_to_time_string ms =
    digits2 (Z.to_N ms / 3600000) ++ u ":"
    ++ digits2 ((Z.to_N ms / 60000) mod 60) ++ u ":"
    ++ digits2 ((Z.to_N ms / 1000) mod 60) ++ u ","
    ++ digits3 (Z.to_N ms mod 1000).
Proof.
  intros Hms. unfold ms_to_time_string. cbv zeta.
  rewrite !zero_pad_2, zero_pad_3; [done|..].
  - apply N.mod_lt. lia.
  - etransitivity; [apply N.mod_lt; lia | lia].
  - etransitivity; [apply N.mod_lt; lia | lia].
  - apply N.Div0.div_lt_upper_bound. lia.
Qed.

(** [int] of a finite float [(-1)^s * m * 2^e] is the integer part of its
    value: the sign is kept and the magnitude is rounded down. *)
Lemma int_of_float_truncates x s m e :
  Prim2SF x = S754_finite s m e ->
  exists z,
    int_of_float x = Ok z
    /\ (if s then z <= 0 else 0 <= z)%Z
    /\ (0 <= e -> Z.abs z = Z.pos m * 2 ^ e)%Z
    /\ (e < 0 ->
        Z.abs z * 2 ^ (- e) <= Z.pos m < (Z.abs z + 1) * 2 ^ (- e))%Z.
Proof.
  intros Hx. unfold int_of_float. rewrite Hx. cbv zeta.
  set (mag := if (0 <=? e)%Z then (Z.pos m * 2 ^ e)%Z else (Z.pos m / 2 ^ (- e))%Z).
  assert (0 <= mag)%Z as Hmag.
  { subst mag. destruct (0 <=? e)%Z eqn:E.
    - apply Z.leb_le in E. apply Z.mul_nonneg_nonneg; [lia|]. by apply Z.pow_nonneg.
    - apply Z.leb_gt in E. apply Z.div_pos; [lia|]. apply Z.pow_pos_nonneg; lia. }
  exists (if s then (- mag)%Z else mag). split; [done|].
  assert (Z.abs (if s then (- mag)%Z else mag) = mag) as -> by (destruct s; lia).
  split; [destruct s; lia|]. subst mag. split.
  - intros He. apply Z.leb_le in He. by rewrite He.
  - intros He. assert ((0 <=? e)%Z = false) as -> by (apply Z.leb_gt; lia).
    assert (0 < 2 ^ (- e))%Z as Hpow by (apply Z.pow_pos_nonneg; lia).
    split.
    + rewrite Z.mul_comm. by apply Z.mul_div_le.
    + rewrite Z.mul_comm. apply Z.mul_succ_div_gt. done.
Qed.

(** The block the loop builds for one accepted segment. *)
Lemma write_srt_loop_one_block segment original_filename total_duration m
    ms_start ms_end :
  (total_duration =? 0)%float = false ->
  int_of_float (seg_start segment * 1000) = Ok ms_start ->
  int_of_float (seg_end segment * 1000) = Ok ms_end ->
  segment_accepted segment = true ->
  fst (write_srt_loop (GYield segment GStop) original_filename total_duration [] m)
  = Ok [ u "1" ++ [0x0A%N]
         ++ ms_to_time_string ms_start ++ u " --> "
         ++ ms_to_time_string ms_end ++ [0x0A%N]
         ++ clean_text (seg_text segment) ++ [0x0A%N] ].
Proof.
  intros Hdur Hs He Hacc. cbn [write_srt_loop]. run.
  unfold float_div. rewrite Hdur, Hs, He.
  unfold segment_accepted in Hacc. by rewrite Hacc.
Qed.

End TimeStamps.


(** ** The temporary file *)

Section TempFile.

Variable w : world.

(** [convert_to_wav] in one equation. *)
Lemma convert_to_wav_eq input_file m :
  let wav := temp_stem w (files m) ++ u ".wav" in
  let m1 := add_call (CallRunFfmpeg (transcode_params input_file wav))
              (set_files (<[wav := []]> (files m)) m) in
  convert_to_wav w input_file m =
  match runffmpeg w (transcode_params input_file wav) with
  | Raises e => (Raise e, m1)
  | Returns rs =>
      if bool_decide (rs ≠ u "ok")
      then (Raise (mk_exn RuntimeError (u "FFmpeg error: " ++ rs)), m1)
      else (Ok wav, m1)
  end.
Proof.
  cbv zeta. unfold convert_to_wav, named_temporary_file, call_runffmpeg. run.
  fold (transcode_params input_file (temp_stem w (files m) ++ u ".wav")).
  destruct (runffmpeg w _) as [rs|e]; [|done].
  by case_bool_decide.
Qed.

Lemma truthy_app_r a b : truthy b = true -> truthy (a ++ b) = true.
Proof. destruct a; [done|]. by intros _. Qed.

Lemma after_finally_removes m p :
  wav_file m = Some p -> truthy p = true -> files (after_finally m) !! p = None.
Proof.
  intros Hp Ht. unfold after_finally. rewrite Hp, Ht. cbn [andb].
  unfold path_exists. case_bool_decide as Hex.
  - cbn [files add_log set_files]. apply lookup_delete_eq.
  - destruct (files m !! p) eqn:E; [|done]. destruct Hex. by eexists.
Qed.

(** When the transcoder does not answer [ok], the temporary file that
    [convert_to_wav] created is still there after [process_file]: the name
    never reaches the local [wav_file], and the [finally] clause removes
    nothing. *)
Lemma temp_file_left_on_transcode_failure input_file model_name language m sets rs :
  let wav := temp_stem w (files m) ++ u ".wav" in
  parse_ini w = Returns sets ->
  WhisperModel w (model_args_of w sets model_name) = Returns tt ->
  runffmpeg w (transcode_params input_file wav) = Returns rs ->
  rs <> u "ok" ->
  files (snd (process_file w input_file model_name language m))
  = <[wav := []]> (files m).
Proof.
  intros wav Hini Hmodel Hff Hrs. rewrite process_file_eq. cbv zeta.
  unfold process_file_body, call_parse_ini, call_WhisperModel. run.
  rewrite Hini, Hmodel. rewrite convert_to_wav_eq. cbv zeta.
  cbn [files set_wav_file add_log add_call]. fold wav. rewrite Hff.
  rewrite bool_decide_eq_true_2 by done.
  reflexivity.
Qed.

(** Once [convert_to_wav] has returned, the temporary file is gone after
    [process_file], whatever recognition and writing did. *)
Lemma temp_file_removed_once_converted input_file model_name language m sets :
  let wav := temp_stem w (files m) ++ u ".wav" in
  parse_ini w = Returns sets ->
  WhisperModel w (model_args_of w sets model_name) = Returns tt ->
  runffmpeg w (transcode_params input_file wav) = Returns (u "ok") ->
  files (snd (process_file w input_file model_name language m)) !! wav = None.
Proof.
  intros wav Hini Hmodel Hff. rewrite process_file_eq. cbv zeta. cbn [snd].
  apply after_finally_removes; [|by apply truthy_app_r].
  assert (forall r m1, wav_file (after_except input_file r m1) = wav_file m1) as ->
    by (by intros [| |] ?).
  unfold process_file_body, call_parse_ini, call_WhisperModel. run.
  rewrite Hini, Hmodel. rewrite convert_to_wav_eq. cbv zeta.
  cbn [files set_wav_file add_log add_call]. fold wav. rewrite Hff.
  rewrite bool_decide_eq_false_2 by (by intros ?).
  match goal with |- context [call_transcribe w ?a ?b ?c ?m0] =>
    pose proof (preserves_call_transcribe w (keeps wav_file) a b c ltac:(tolerant) m0) as Hb;
    destruct (call_transcribe w a b c m0) as [[r|e|z] mc]
  end; unfold keeps in Hb; cbn [snd wav_file set_wav_file] in Hb; [|done|done].
  rewrite <- Hb.
  apply (preserves_write_srt w (keeps wav_file)); tolerant.
Qed.

End TempFile.

(** C1: a run in which the transcoder reports an error.  The temporary
    [.wav] file that [convert_to_wav] created is still on the file system
    when processing of the file has completed, the error being logged and
    no deletion taking place; with the answer [ok] and the same input the
    file is gone. *)
Theorem C1_temp_file_left_after_transcode_failure :
  let failing := demo_world (Returns (u "Error opening input")) None
                   three_segments 3.5 in
  let passing := demo_world (Returns (u "ok")) None three_segments 3.5 in
  let args := [u "small"; u "auto"; u "/v/a.mp4"] in
  let m_fail := snd (main failing args initial_machine) in
  let m_pass := snd (main passing args initial_machine) in
  fst (main failing args initial_machine) = Ok tt
  /\ files m_fail !! u "/tmp/tmp0.wav" = Some []
  /\ log m_fail
     = [ InfoProcessing (u "/v/a.mp4");
         ErrorProcessing (u "/v/a.mp4") (u "FFmpeg error: Error opening input") ]
  /\ files m_pass !! u "/tmp/tmp0.wav" = None
  /\ last (log m_pass) = Some (InfoDeleted (u "/tmp/tmp0.wav")).
Proof.
  cbv zeta. split; [reflexivity|]. split; [by vm_compute|]. split; [reflexivity|].
  split; [by vm_compute|]. reflexivity.
Qed.

(** ** A total duration of zero *)

Section ZeroDuration.

Variable w : world.

(** The machine [process_file] leaves when recognition reports a duration
    of zero and yields a segment, field by field. *)
Lemma process_file_zero_duration input_file model_name language m sets
    segment rest info :
  let wav := temp_stem w (files m) ++ u ".wav" in
  parse_ini w = Returns sets ->
  WhisperModel w (model_args_of w sets model_name) = Returns tt ->
  runffmpeg w (transcode_params input_file wav) = Returns (u "ok") ->
  transcribe w (model_args_of w sets model_name) wav
    (transcribe_args_of sets language) = Returns (GYield segment rest, info) ->
  (duration info =? 0)%float = true ->
  let r := process_file w input_file model_name language m in
  fst r = Ok tt
  /\ writes (snd r) = writes m
  /\ files (snd r) = delete wav (files m)
  /\ log (snd r)
     = log m ++ [ InfoProcessing input_file;
                  ErrorProcessing input_file (u "float division by zero");
                  InfoDeleted wav ].
Proof.
  intros wav Hini Hmodel Hff Htr Hdur r. subst r.
  rewrite process_file_eq. cbv zeta.
  unfold process_file_body, call_parse_ini, call_WhisperModel. run.
  rewrite Hini, Hmodel. rewrite convert_to_wav_eq. cbv zeta.
  cbn [files set_wav_file add_log add_call]. fold wav. rewrite Hff.
  rewrite bool_decide_eq_false_2 by (by intros ?).
  unfold call_transcribe. run. rewrite Htr.
  unfold write_srt. cbn [fst snd write_srt_loop]. run.
  unfold float_div. rewrite Hdur.
  cbn [fst snd after_except exn_msg]. unfold after_finally.
  cbn [wav_file add_log set_wav_file add_call set_files].
  assert (truthy wav = true) as -> by (by apply truthy_app_r).
  unfold path_exists. cbn [files add_log set_wav_file add_call set_files andb].
  rewrite bool_decide_eq_true_2 by (rewrite lookup_insert_eq; by eexists).
  cbn [files writes log add_log set_wav_file add_call set_files].
  split; [done|]. split; [done|]. split.
  - by rewrite delete_insert_eq.
  - by rewrite <- !app_assoc.
Qed.

End ZeroDuration.

(** C10: when recognition reports a total duration of zero and yields a
    segment, the progress division fails, and [process_file] ends normally
    with no subtitle written, the division error logged with the file, the
    temporary file removed and its removal logged; [main] goes on with the
    files that follow. *)
Theorem C10_zero_duration_takes_error_branch :
  forall (w : world) (input_file model_name language : pystr)
         (input_files : list pystr) (m : machine) (sets : settings)
         (segment : Segment) (rest : segment_gen) (info : TranscriptionInfo),
    let wav := temp_stem w (files m) ++ u ".wav" in
    parse_ini w = Returns sets ->
    WhisperModel w (model_args_of w sets model_name) = Returns tt ->
    runffmpeg w (transcode_params input_file wav) = Returns (u "ok") ->
    transcribe w (model_args_of w sets model_name) wav
      (transcribe_args_of sets language) = Returns (GYield segment rest, info) ->
    (duration info =? 0)%float = true ->
    let r := process_file w input_file model_name language m in
    fst r = Ok tt
    /\ writes (snd r) = writes m
    /\ files (snd r) = delete wav (files m)
    /\ log (snd r)
       = log m ++ [ InfoProcessing input_file;
                    ErrorProcessing input_file (u "float division by zero");
                    InfoDeleted wav ]
    /\ main w (model_name :: language :: input_file :: input_files) m
       = for_each input_files
           (fun f => process_file w f model_name language) (snd r).
Proof.
  intros w input_file model_name language input_files m sets segment rest info
    wav Hini Hmodel Hff Htr Hdur r.
  destruct (process_file_zero_duration w input_file model_name language m sets
              segment rest info Hini Hmodel Hff Htr Hdur) as (Hr & Hw & Hf & Hl).
  fold wav in Hf, Hl. subst r.
  repeat (split; [done|]).
  rewrite main_well_formed. cbn [for_each]. rewrite run_bind.
  destruct (process_file w input_file model_name language m) as [r1 m1].
  cbn [fst snd] in *. by subst r1.
Qed.

(** C10 (instance): the three sample segments with a reported duration of
    zero, followed by a second input file. *)
Lemma C10_zero_duration_sample :
  let w := demo_world (Returns (u "ok")) None three_segments 0 in
  let r := process_file w (u "/v/a.mp4") (u "small") (u "auto") initial_machine in
  fst r = Ok tt
  /\ writes (snd r) = []
  /\ files (snd r) = delete (u "/tmp/tmp0.wav") ∅
  /\ log (snd r)
     = [ InfoProcessing (u "/v/a.mp4");
         ErrorProcessing (u "/v/a.mp4") (u "float division by zero");
         InfoDeleted (u "/tmp/tmp0.wav") ]
  /\ main w [u "small"; u "auto"; u "/v/a.mp4"; u "/v/b.mkv"] initial_machine
     = for_each [u "/v/b.mkv"]
         (fun f => process_file w f (u "small") (u "auto")) (snd r).
Proof.
  exact (C10_zero_duration_takes_error_branch
           (demo_world (Returns (u "ok")) None three_segments 0)
           (u "/v/a.mp4") (u "small") (u "auto") [u "/v/b.mkv"] initial_machine
           demo_sets (mk_segment 0 1 (u "hello"))
           (gen_of [mk_segment 1 2 (u "。。。"); mk_segment 2 3.5 (u " it&#39;s ")])
           (mk_info 0)
           eq_refl eq_refl eq_refl eq_refl eq_refl).
Defined.

(** ** The arguments of the recognition call *)

Section TranscribeCall.

Variable w : world.

Lemma after_finally_calls m : calls (after_finally m) = calls m.
Proof.
  unfold after_finally. destruct (wav_file m) as [p|]; [|done].
  by destruct (truthy p && path_exists p m).
Qed.

Lemma after_except_calls input_file r m :
  calls (after_except input_file r m) = calls m.
Proof. by destruct r. Qed.

(** Decides where a recognition call found in an explicit trace comes from. *)
Ltac calls_case :=
  cbn [snd calls add_call set_wav_file set_files add_log];
  rewrite !elem_of_app, !list_elem_of_singleton;
  intros ?;
  repeat match goal with H : _ \/ _ |- _ => destruct H as [H|H] end;
  first [ by left
        | match goal with H : CallTranscribe _ _ = _ |- _ => discriminate H end
        | right; eexists; split; [done|congruence] ].

(** Every recognition call that [process_file] makes has the arguments
    built from the settings and the requested language. *)
Lemma process_file_transcribe_calls input_file model_name language m wav kw :
  CallTranscribe wav kw
    ∈ calls (snd (process_file w input_file model_name language m)) ->
  CallTranscribe wav kw ∈ calls m
  \/ exists sets,
       parse_ini w = Returns sets /\ kw = transcribe_args_of sets language.
Proof.
  rewrite process_file_eq. cbv zeta. cbn [snd].
  rewrite after_finally_calls, after_except_calls.
  unfold process_file_body, call_parse_ini, call_WhisperModel. run.
  destruct (parse_ini w) as [sets|e0]; [|calls_case].
  destruct (WhisperModel w _) as [[]|e0]; [|calls_case].
  rewrite convert_to_wav_eq. cbv zeta.
  cbn [files set_wav_file add_log add_call].
  destruct (runffmpeg w _) as [rs|e0]; [|calls_case].
  case_bool_decide; [calls_case|].
  unfold call_transcribe. run.
  destruct (transcribe w _ _ _) as [r|e0]; [|calls_case].
  match goal with |- context [write_srt w ?a ?b ?c ?m0] =>
    pose proof (preserves_write_srt w (keeps calls) a b c
                  ltac:(tolerant) ltac:(tolerant) ltac:(tolerant) m0) as Hkeep;
    unfold keeps in Hkeep;
    destruct (write_srt w a b c m0) as [[[]|e1|z] md]
  end; cbn [snd] in *; rewrite Hkeep; calls_case.
Qed.

Lemma transcribe_args_language sets language :
  (language = u "auto" ->
     kw_language (transcribe_args_of sets language) = VNone)
  /\ (language <> u "auto" ->
        kw_language (transcribe_args_of sets language) = VStr language)
  /\ (language = u "zh" ->
        kw_initial_prompt (transcribe_args_of sets language)
        = sets_get sets "initial_prompt_zh")
  /\ (language <> u "zh" ->
        kw_initial_prompt (transcribe_args_of sets language) = VNone).
Proof.
  unfold transcribe_args_of. cbn [kw_language kw_initial_prompt].
  repeat split; intros H.
  - by rewrite bool_decide_eq_false_2 by (by intros ?).
  - by rewrite bool_decide_eq_true_2.
  - by rewrite bool_decide_eq_true_2.
  - by rewrite bool_decide_eq_false_2.
Qed.

End TranscribeCall.

(** C8: the recognition call gets no language when the requested language
    is [auto] and the requested language otherwise; it gets the configured
    [initial_prompt_zh] when the requested language is [zh] and no prompt
    for every other language; and every recognition call of [process_file]
    carries exactly these arguments. *)
Theorem C8_language_and_prompt_arguments :
  (forall (sets : settings) (language : pystr),
     (language = u "auto" ->
        kw_language (transcribe_args_of sets language) = VNone)
     /\ (language <> u "auto" ->
           kw_language (transcribe_args_of sets language) = VStr language)
     /\ (language = u "zh" ->
           kw_initial_prompt (transcribe_args_of sets language)
           = sets_get sets "initial_prompt_zh")
     /\ (language <> u "zh" ->
           kw_initial_prompt (transcribe_args_of sets language) = VNone))
  /\ (forall (w : world) (input_file model_name language : pystr) (m : machine)
             (wav : pystr) (kw : transcribe_args),
        CallTranscribe wav kw
          ∈ calls (snd (process_file w input_file model_name language m)) ->
        CallTranscribe wav kw ∈ calls m
        \/ exists sets,
             parse_ini w = Returns sets /\ kw = transcribe_args_of sets language)
  /\ kw_initial_prompt (transcribe_args_of demo_sets (u "zh"))
     = VStr (u "以下是普通话的句子。")
  /\ kw_initial_prompt (transcribe_args_of demo_sets (u "en")) = VNone
  /\ kw_language (transcribe_args_of demo_sets (u "en")) = VStr (u "en")
  /\ kw_language (transcribe_args_of demo_sets (u "auto")) = VNone.
Proof.
  split; [apply transcribe_args_language|].
  split; [apply process_file_transcribe_calls|].
  repeat split; by vm_compute.
Qed.
